(** * The tree scheduler of task/backend/scheduler/treescheduler.go

    A shallow embedding of [TreeScheduler]: its two ordered indexes
    ([scheduled] and [running]), the [nextTime] side map, the armed wake
    time, and the bodies of [NewScheduler], [Schedule], [Release], [Runs],
    [When], [Stop], of one turn of the dispatch loop and of the per-run
    waiter.

    Conventions.
    - [time.Time] is an instant in nanoseconds since the Unix epoch and
      [time.Duration] a number of nanoseconds, both in [Z].
    - [ID] (a [uint64]) and [int64] values are in [Z]; the only arithmetic
      the scheduler does on a machine integer is [it.nonce++], whose
      wrap-around is written out in [wrap_int].
    - A [btree.BTree] is the strictly ascending list of its items, together
      with a flag telling whether the tree was made by [btree.New]. The
      struct holds its two trees by value and nothing in the package makes
      them: they are zero values, on which reads find nothing and
      [ReplaceOrInsert] dereferences a nil pointer.
    - Calls to the injected collaborators (executor, error handler, cancel
      functions) are recorded in a log carried by the state; the timer is
      part of the state.
    - A Go function body ends by returning, by panicking or by blocking for
      ever; in the last two cases the [outcome] carries the state the
      scheduler was left in. *)

From Stdlib Require Import ZArith Lia Bool.
From stdpp Require Import base gmap list strings.

Local Open Scope Z_scope.

(** ** Outcomes of a Go function body *)

Inductive outcome (S A : Type) : Type :=
| Returns (a : A)
| Panics (msg : string) (st : S)
| Blocks (on : string) (st : S).
Arguments Returns {S A} a.
Arguments Panics {S A} msg st.
Arguments Blocks {S A} on st.

Definition obind {S A B} (o : outcome S A) (k : A -> outcome S B) : outcome S B :=
  match o with
  | Returns a => k a
  | Panics m st => Panics m st
  | Blocks c st => Blocks c st
  end.

(** The same outcome, seen from a caller whose state is [f st]. *)
Definition in_state {S T A} (f : S -> T) (o : outcome S A) : outcome T A :=
  match o with
  | Returns a => Returns a
  | Panics m st => Panics m (f st)
  | Blocks c st => Blocks c (f st)
  end.

(** The state a body leaves, however it ends. *)
Definition state_of {S} (o : outcome S S) : S :=
  match o with
  | Returns st => st
  | Panics _ st => st
  | Blocks _ st => st
  end.

(** ** github.com/google/btree, as the scheduler uses it *)

Module BTree.
Section Tree.
Context {A : Type}.
Variable Less : A -> A -> bool.

(** Two items are the same key when neither is less than the other. *)
Definition same (x y : A) : bool := negb (Less x y) && negb (Less y x).

(** [ReplaceOrInsert] on a tree made by [btree.New]. *)
Fixpoint ReplaceOrInsert (x : A) (t : list A) : list A :=
  match t with
  | [] => [x]
  | y :: t' =>
      if Less x y then x :: y :: t'
      else if Less y x then y :: ReplaceOrInsert x t'
      else x :: t'
  end.

(** [t.ReplaceOrInsert(x)] on a tree value: a zero-value tree has no root
    and no copy-on-write context, and making the root dereferences the
    nil context before anything is written. *)
Definition Insert {S} (made : bool) (x : A) (t : list A) (st : S)
    : outcome S (list A) :=
  if made then Returns (ReplaceOrInsert x t)
  else Panics "nil pointer dereference: ReplaceOrInsert on a zero-value BTree" st.

(** [Delete], [DeleteMin]: on a zero-value tree (no root) both find
    nothing, like on an empty one. *)
Fixpoint Delete (x : A) (t : list A) : list A :=
  match t with
  | [] => []
  | y :: t' => if same x y then t' else y :: Delete x t'
  end.

Definition DeleteMin (t : list A) : option (A * list A) :=
  match t with
  | [] => None
  | m :: t' => Some (m, t')
  end.

(** An [ItemIterator] is a closure; [St] is what the closure can write
    to (its captured variables). It returns false to stop the walk. *)
Definition ItemIterator (St : Type) : Type := A -> St -> bool * St.

Fixpoint ascend {St} (iter : ItemIterator St) (l : list A) (st : St) : St :=
  match l with
  | [] => st
  | x :: l' =>
      let '(continue, st') := iter x st in
      if continue then ascend iter l' st' else st'
  end.

(** [AscendGreaterOrEqual] with an iterator that does not write to the
    tree it walks: the items in [pivot, last], ascending. *)
Definition AscendGreaterOrEqual {St} (t : list A) (pivot : A)
    (iter : ItemIterator St) (st : St) : St :=
  ascend iter (filter (fun x => Less x pivot = false) t) st.

(** The first item [AscendGreaterOrEqual] hands to its iterator. *)
Definition first_from (t : list A) (pivot : A) : option A :=
  head (filter (fun x => Less x pivot = false) t).

(** The representation invariant: strictly ascending. *)
Fixpoint sorted (t : list A) : Prop :=
  match t with
  | [] => True
  | x :: t' => Forall (fun y => Less x y = true) t' /\ sorted t'
  end.
End Tree.
End BTree.

(** ** Identifiers, instants and the constants of the package *)

(** Modelled from the spec: the type [ID] is declared in another file of
    the package; the spec has it as an opaque, totally ordered 64-bit
    identifier. The scheduler only compares ids. *)
Definition ID : Type := Z.
Definition instant : Type := Z.
Definition Duration : Type := Z.
Definition Err : Type := string.

Definition Second : Duration := 1000000000.
Definition Hour : Duration := 3600 * Second.

Definition cancelTimeOut : Duration := 30 * Second.
Definition defaultMaxRunsOutstanding : Z := Z.shiftl 1 16.
Definition maxWaitTime : Duration := 1000000 * Hour.

(** [time.Unix(sec, nsec)], [t.Unix()], [t.Add(d)], [t.Before(u)] and
    [time.Until(t)] (the clock reading [now] is an argument). *)
Definition time_Unix (sec nsec : Z) : instant := sec * Second + nsec.
Definition Unix (t : instant) : Z := t / Second.
Definition Add (t : instant) (d : Duration) : instant := t + d.
Definition Before (t u : instant) : bool := t <? u.
Definition Until (now t : instant) : Duration := t - now.

(** [int] is 64 bits wide; [n++] wraps. *)
Definition wrap_int (z : Z) : Z := (z + 2 ^ 63) mod 2 ^ 64 - 2 ^ 63.

(** ** The Go runtime's allocator

    [make([]ID, 0, n)] panics when [n] is negative or when the array, of 8
    bytes an element, is larger than [maxAlloc], the most the runtime ever
    allocates (a machine word bounds it); below that the operating system
    may still refuse the memory, which ends the process. *)
Class Runtime : Type := {
  maxAlloc : Z;
  maxAlloc_word : maxAlloc < 2 ^ 64;
  grants : Z -> bool;
}.

(** ** Go slices of [ID]

    A slice value is a header (address of the backing array, length,
    capacity); the arrays live in a heap. Copying a slice copies the
    header only. *)

Module GoSlice.
Record slice : Type := { ptr : nat; len : nat; cap : nat }.

Definition heap : Type := list (list ID).

(** [make([]ID, 0, c)], once the runtime has accepted the size. *)
Definition make (h : heap) (c : nat) : heap * slice :=
  (h ++ [replicate c 0], {| ptr := length h; len := 0; cap := c |}).

(** The capacity chosen when [append] has to reallocate. The runtime
    rounds it up to a size class; the scheduler never reads it. *)
Definition grow (c : nat) : nat := Nat.max (2 * c) (c + 1).

(** [append(s, x)]: in place when there is room, else into a new array. *)
Definition append (h : heap) (s : slice) (x : ID) : heap * slice :=
  if (len s <? cap s)%nat then
    (alter (fun a => <[len s := x]> a) (ptr s) h,
     {| ptr := ptr s; len := S (len s); cap := cap s |})
  else
    let old := take (len s) (default [] (h !! ptr s)) in
    let c := grow (cap s) in
    (h ++ [old ++ x :: replicate (c - S (len s)) 0],
     {| ptr := length h; len := S (len s); cap := c |}).

(** The elements a holder of the header [s] can see: [s[0:len(s)]]. *)
Definition elems (h : heap) (s : slice) : list ID :=
  take (len s) (default [] (h !! ptr s)).
End GoSlice.

(** ** The collaborators *)

(** github.com/influxdata/cron: [ParseUTC] and [Parsed.Next]. [Next]
    returns its two results as Go does, an instant and an error. *)
Class Cron : Type := {
  Parsed : Type;
  Parsed_zero : Parsed;
  ParseUTC : string -> Parsed + Err;
  Next : Parsed -> instant -> instant * option Err;
}.

(** A cancel function ([prom.Cancel], a bound method) is named by a
    token; calling it is the event [EvCancel]. *)
Definition CancelFn : Type := nat.

(** Modelled from the spec: the [Promise] interface is declared in another
    file of the package; the spec has a handle expose [ID()], [Cancel(ctx)],
    [Done()] and [Error()], the error-or-nil read after [Done()]. *)
Record Promise : Type := {
  prom_ID : ID;
  prom_Cancel : CancelFn;
  prom_Error : option Err;
}.

Definition ExecutorFunc : Type := ID -> instant -> option Promise * option Err.
Definition ErrorFunc : Type := ID -> ID -> instant -> Err -> bool.

(** Modelled from the spec: the [Time] interface and [stdTime] are
    declared in another file of the package; the spec has every time read
    go through an injected [Time] provider. The scheduler only calls its
    [Unix] method, which the standard clock answers with [time.Unix]. *)
Record TimeSrc : Type := { ts_Unix : Z -> Z -> instant }.
Definition stdTime : TimeSrc := {| ts_Unix := time_Unix |}.

(** A [*time.Timer]: whether it is armed, for which instant, and whether a
    tick is waiting in its channel. *)
Record Timer : Type := { active : bool; deadline : instant; tick : bool }.

Definition NewTimer (now : instant) (d : Duration) : Timer :=
  {| active := true; deadline := now + d; tick := false |}.
Definition timer_Stop (t : Timer) : bool * Timer :=
  (active t, {| active := false; deadline := deadline t; tick := tick t |}).
Definition timer_Reset (now : instant) (d : Duration) (t : Timer) : Timer :=
  {| active := true; deadline := now + d; tick := tick t |}.
(** The runtime delivering the tick of an armed timer. *)
Definition timer_fire (t : Timer) : Timer :=
  {| active := false; deadline := deadline t; tick := true |}.
(** The timer once its tick has been received from [timer.C]. *)
Definition timer_taken (t : Timer) : Timer :=
  {| active := active t; deadline := deadline t; tick := false |}.

(** What the scheduler asks of its collaborators, in order. *)
Inductive event : Type :=
| EvExecutor (id : ID) (scheduledAt : instant)
| EvOnErr (taskID runID : ID) (scheduledAt : instant) (err : Err)
| EvCancel (c : CancelFn).

(** ** The running registry's items *)

Record runningItem : Type := {
  cancel : option CancelFn;
  runID : ID;
  taskID : ID;
}.

Definition runningItem_Less (it it2 : runningItem) : bool :=
  (taskID it <? taskID it2)
  || ((taskID it =? taskID it2) && (runID it <? runID it2)).

(** What [AscendGreaterOrEqual] goes on to do once its iterator has
    deleted from the tree under the walk and asked for the next item. The
    library walks its live nodes, so this depends on how the items sit in
    them (a delete can merge nodes and leave the walk indexing past the
    end of one): it is a parameter, from the registry as the walk found it,
    the registry after the first visit and the task, to the registry the
    walk leaves. *)
Class Walk : Type := {
  resume_walk :
    list runningItem -> list runningItem -> ID ->
    outcome (list runningItem) (list runningItem);
}.

(** ** The scheduler *)

Section Scheduler.
Context {C : Cron} {W : Walk} {R : Runtime}.

(** [item]: a task in the scheduled tree. *)
Record item : Type := {
  cron : Parsed;
  next : Z;
  nonce : Z;
  offset : Z;
  id : ID;
}.

Definition item_Less (it it2 : item) : bool :=
  (next it <? next it2)
  || ((next it =? next it2)
      && ((nonce it <? nonce it2)
          || ((nonce it =? nonce it2) && (id it <? id it2)))).

(** [TreeScheduler]. [scheduled_made] and [running_made] tell whether the
    tree held in the field was made by [btree.New]; [onErr] is [None] for
    a nil func. [sema] counts the tokens in the buffered channel of
    capacity [sema_cap], [wg] is the wait-group counter, [waiting] the
    waiter goroutines parked on their promise's [Done()]. The [done]
    channel is never made: it stays nil. *)
Record TreeScheduler : Type := {
  scheduled_made : bool;
  scheduled : list item;
  running_made : bool;
  running : list runningItem;
  nextTime : gmap Z Z;
  when : instant;
  executor : ExecutorFunc;
  onErr : option ErrorFunc;
  time : option TimeSrc;
  timer : Timer;
  sema : Z;
  sema_cap : Z;
  wg : Z;
  waiting : list (item * Promise);
  log : list event;
}.

Definition set_scheduled (v : list item) (s : TreeScheduler) : TreeScheduler :=
  {| scheduled_made := scheduled_made s; scheduled := v;
     running_made := running_made s; running := running s;
     nextTime := nextTime s; when := when s; executor := executor s;
     onErr := onErr s; time := time s; timer := timer s; sema := sema s;
     sema_cap := sema_cap s; wg := wg s; waiting := waiting s;
     log := log s |}.

Definition set_running (v : list runningItem) (s : TreeScheduler) : TreeScheduler :=
  {| scheduled_made := scheduled_made s; scheduled := scheduled s;
     running_made := running_made s; running := v; nextTime := nextTime s;
     when := when s; executor := executor s; onErr := onErr s;
     time := time s; timer := timer s; sema := sema s;
     sema_cap := sema_cap s; wg := wg s; waiting := waiting s;
     log := log s |}.

Definition set_when (v : instant) (s : TreeScheduler) : TreeScheduler :=
  {| scheduled_made := scheduled_made s; scheduled := scheduled s;
     running_made := running_made s; running := running s;
     nextTime := nextTime s; when := v; executor := executor s;
     onErr := onErr s; time := time s; timer := timer s; sema := sema s;
     sema_cap := sema_cap s; wg := wg s; waiting := waiting s;
     log := log s |}.

Definition set_onErr (v : option ErrorFunc) (s : TreeScheduler) : TreeScheduler :=
  {| scheduled_made := scheduled_made s; scheduled := scheduled s;
     running_made := running_made s; running := running s;
     nextTime := nextTime s; when := when s; executor := executor s;
     onErr := v; time := time s; timer := timer s; sema := sema s;
     sema_cap := sema_cap s; wg := wg s; waiting := waiting s;
     log := log s |}.

Definition set_time (v : option TimeSrc) (s : TreeScheduler) : TreeScheduler :=
  {| scheduled_made := scheduled_made s; scheduled := scheduled s;
     running_made := running_made s; running := running s;
     nextTime := nextTime s; when := when s; executor := executor s;
     onErr := onErr s; time := v; timer := timer s; sema := sema s;
     sema_cap := sema_cap s; wg := wg s; waiting := waiting s;
     log := log s |}.

Definition set_timer (v : Timer) (s : TreeScheduler) : TreeScheduler :=
  {| scheduled_made := scheduled_made s; scheduled := scheduled s;
     running_made := running_made s; running := running s;
     nextTime := nextTime s; when := when s; executor := executor s;
     onErr := onErr s; time := time s; timer := v; sema := sema s;
     sema_cap := sema_cap s; wg := wg s; waiting := waiting s;
     log := log s |}.

(** Sending to, receiving from and replacing the [sema] channel. *)
Definition set_sema (n c : Z) (s : TreeScheduler) : TreeScheduler :=
  {| scheduled_made := scheduled_made s; scheduled := scheduled s;
     running_made := running_made s; running := running s;
     nextTime := nextTime s; when := when s; executor := executor s;
     onErr := onErr s; time := time s; timer := timer s; sema := n;
     sema_cap := c; wg := wg s; waiting := waiting s; log := log s |}.

Definition set_wg (v : Z) (s : TreeScheduler) : TreeScheduler :=
  {| scheduled_made := scheduled_made s; scheduled := scheduled s;
     running_made := running_made s; running := running s;
     nextTime := nextTime s; when := when s; executor := executor s;
     onErr := onErr s; time := time s; timer := timer s; sema := sema s;
     sema_cap := sema_cap s; wg := v; waiting := waiting s; log := log s |}.

Definition set_waiting (v : list (item * Promise)) (s : TreeScheduler) : TreeScheduler :=
  {| scheduled_made := scheduled_made s; scheduled := scheduled s;
     running_made := running_made s; running := running s;
     nextTime := nextTime s; when := when s; executor := executor s;
     onErr := onErr s; time := time s; timer := timer s; sema := sema s;
     sema_cap := sema_cap s; wg := wg s; waiting := v; log := log s |}.

Definition emit (e : event) (s : TreeScheduler) : TreeScheduler :=
  {| scheduled_made := scheduled_made s; scheduled := scheduled s;
     running_made := running_made s; running := running s;
     nextTime := nextTime s; when := when s; executor := executor s;
     onErr := onErr s; time := time s; timer := timer s; sema := sema s;
     sema_cap := sema_cap s; wg := wg s; waiting := waiting s;
     log := log s ++ [e] |}.

(** Calling [s.onErr]: a nil func panics; otherwise the call is logged,
    and the boolean it returns is dropped at every call site. *)
Definition call_onErr (tid rid : ID) (scheduledAt : instant) (err : Err)
    (s : TreeScheduler) : outcome TreeScheduler TreeScheduler :=
  match onErr s with
  | None => Panics "nil pointer dereference: call of a nil func (s.onErr)" s
  | Some fn =>
      let _ := fn tid rid scheduledAt err in
      Returns (emit (EvOnErr tid rid scheduledAt err) s)
  end.

(** [s.scheduled.ReplaceOrInsert(it)] and [s.running.ReplaceOrInsert(r)]. *)
Definition insert_scheduled (it : item) (s : TreeScheduler)
    : outcome TreeScheduler TreeScheduler :=
  obind (BTree.Insert item_Less (scheduled_made s) it (scheduled s) s)
    (fun t => Returns (set_scheduled t s)).

Definition insert_running (r : runningItem) (s : TreeScheduler)
    : outcome TreeScheduler TreeScheduler :=
  obind (BTree.Insert runningItem_Less (running_made s) r (running s) s)
    (fun t => Returns (set_running t s)).

(** [runningItem{taskID: taskID}] and [item{next: n, id: id}]: the other
    fields are zero. *)
Definition running_key (tid : ID) : runningItem :=
  {| cancel := None; runID := 0; taskID := tid |}.
Definition item_key (n : Z) (i : ID) : item :=
  {| cron := Parsed_zero; next := n; nonce := 0; offset := 0; id := i |}.

(** *** clearTask

    One call of the closure, on the item [i] it is handed, with
    [s.running] as it stands: for an item of the task it deletes the item
    keyed [(taskID, 0)] from [s.running], the tree under the walk, and
    asks for the next item; it calls no cancel function. *)
Definition clearTask (tid : ID)
    : BTree.ItemIterator (A := runningItem) (list runningItem) :=
  fun i running =>
    let del := taskID i =? tid in
    if negb del then (false, running)
    else (true, BTree.Delete runningItem_Less (running_key tid) running).

(** The walk [Release] starts at [runningItem{taskID: taskID}]. Its first
    visit is to the least item at or above the pivot; when the closure
    stops there nothing was written, and when it deleted and asked to go
    on, what follows is the library's [resume_walk]. *)
Definition walk_clearTask (tid : ID) (s : TreeScheduler)
    : outcome TreeScheduler TreeScheduler :=
  match BTree.first_from runningItem_Less (running s) (running_key tid) with
  | None => Returns s
  | Some i =>
      let '(continue, reg) := clearTask tid i (running s) in
      if continue then
        obind (in_state (fun reg' => set_running reg' s)
                 (resume_walk (running s) reg tid))
          (fun reg' => Returns (set_running reg' s))
      else Returns (set_running reg s)
  end.

(** *** runs

    Returns the closure, the variable [acc] the closure captured (with
    the heap its array lives in) and the value of [acc] at the return
    statement: a copy of the header, of length 0. *)
Definition runs (tid : ID) (limit : Z)
    : outcome unit
        (BTree.ItemIterator (A := runningItem) (GoSlice.heap * GoSlice.slice)
         * (GoSlice.heap * GoSlice.slice) * GoSlice.slice) :=
  if (limit <? 0) || (maxAlloc <? 8 * limit) then
    Panics "makeslice: cap out of range" tt
  else if negb (grants (8 * limit)) then
    Panics "fatal error: runtime: out of memory" tt
  else
    let '(h, acc) := GoSlice.make [] (Z.to_nat limit) in
    Returns
      (fun i '(h, acc) =>
         let ritem := i in
         let matches := taskID ritem =? tid in
         if negb matches then (false, (h, acc))
         else (true, GoSlice.append h acc (runID ritem)),
       (h, acc), acc).

(** *** NewScheduler and its options *)

Definition treeSchedulerOptFunc : Type :=
  TreeScheduler -> outcome TreeScheduler (TreeScheduler * option Err).

(** [fn] may be nil. *)
Definition WithOnErrorFn (fn : option ErrorFunc) : treeSchedulerOptFunc :=
  fun t => Returns (set_onErr fn t, None).

Definition WithMaxRunsOutsanding (n : Z) : treeSchedulerOptFunc :=
  fun t =>
    if n <? 0 then Panics "makechan: size out of range" t
    else Returns (set_sema 0 n t, None).

(** The argument is ignored: the standard clock is installed. *)
Definition WithTime (t : TimeSrc) : treeSchedulerOptFunc :=
  fun t => Returns (set_time (Some stdTime) t, None).

Fixpoint apply_opts (opts : list treeSchedulerOptFunc) (s : TreeScheduler)
    : outcome TreeScheduler (TreeScheduler * option Err) :=
  match opts with
  | [] => Returns (s, None)
  | o :: opts' =>
      obind (o s) (fun '(s', err) =>
        match err with
        | Some e => Returns (s', Some e)
        | None => apply_opts opts' s'
        end)
  end.

(** The struct literal names [executor], [onErr] and [sema]; the two
    trees, [nextTime], [time] and [done] are left at their zero values.
    [Executor] may be nil; the check comes after the timer is made. The
    dispatch goroutine is [loop_iteration] below. *)
Definition NewScheduler (now : instant) (Executor : option ExecutorFunc)
    (opts : list treeSchedulerOptFunc)
    : outcome unit (option TreeScheduler * option Err) :=
  let s := {| scheduled_made := false; scheduled := [];
              running_made := false; running := [];
              nextTime := ∅; when := 0;
              executor := default (fun _ _ => (None, None)) Executor;
              onErr := Some (fun _ _ _ _ => true);
              time := None;
              timer := {| active := false; deadline := 0; tick := false |};
              sema := 0; sema_cap := defaultMaxRunsOutstanding;
              wg := 0; waiting := []; log := [] |} in
  obind (in_state (fun _ => tt) (apply_opts opts s)) (fun '(s, err) =>
    match err with
    | Some e => Returns (None, Some e)
    | None =>
        let s := set_when (Add now maxWaitTime) s in
        let s := set_timer (NewTimer now (Until now (when s))) s in
        match Executor with
        | None => Returns (None, Some "Executor must be a nnon-nil function")
        | Some _ => Returns (Some s, None)
        end
    end).

(** *** When *)
Definition When (s : TreeScheduler) : instant :=
  let w := when s in w.

(** *** Release *)
Definition Release (s : TreeScheduler) (tid : ID)
    : outcome TreeScheduler (TreeScheduler * option Err) :=
  match nextTime s !! tid with
  | None => Returns (s, None)
  | Some nextTime_ =>
      let s := set_scheduled
                 (BTree.Delete item_Less (item_key nextTime_ tid) (scheduled s)) s in
      obind (walk_clearTask tid s) (fun s => Returns (s, None))
  end.

(** *** Schedule

    [now] is what the clock reads when [time.Until] is evaluated. Line
    258 is written [<-s.timer.C()], a call of the channel [C], which the
    compiler refuses; it is read as the receive [<-s.timer.C] of the
    stop-and-drain idiom, which blocks when no tick is waiting. *)
Definition Schedule (now : instant) (s : TreeScheduler) (i : ID)
    (cronString : string) (off : Duration) (since : instant)
    : outcome TreeScheduler (TreeScheduler * option Err) :=
  match ParseUTC cronString with
  | inr err => Returns (s, Some err)
  | inl crSch =>
      match Next crSch since with
      | (_, Some err) => Returns (s, Some err)
      | (nt, None) =>
          let it := {| cron := crSch; next := Unix (Add nt off);
                       nonce := 0; offset := 0; id := i |} in
          match nextTime s !! i with
          | None =>
              obind (insert_scheduled it s) (fun s => Returns (s, None))
          | Some nextTime_ =>
              obind
                (if Before (when s) nt then
                   let s := set_when nt s in
                   let '(stopped, tm) := timer_Stop (timer s) in
                   let s := set_timer tm s in
                   obind
                     (if negb stopped then
                        if tick (timer s)
                        then Returns (set_timer (timer_taken (timer s)) s)
                        else Blocks "s.timer.C" s
                      else Returns s)
                     (fun s =>
                        Returns (set_timer
                                   (timer_Reset now (Until now (when s)) (timer s))
                                   s))
                 else Returns s)
                (fun s =>
                   let s := set_scheduled
                              (BTree.Delete item_Less (item_key nextTime_ i)
                                 (scheduled s)) s in
                   obind (insert_scheduled it s) (fun s => Returns (s, None)))
          end
      end
  end.

(** *** Runs

    The walk starts at [runningItem{taskID: 0}]; its closure only reads
    the tree. What is returned is the header [runs] handed back, read in
    the heap the walk left. *)
Definition Runs (s : TreeScheduler) (tid : ID) (limit : Z)
    : outcome unit (list ID) :=
  obind (runs tid limit) (fun '(iter, env, acc) =>
    let '(h, _) :=
      BTree.AscendGreaterOrEqual runningItem_Less (running s)
        (running_key 0) iter env in
    Returns (GoSlice.elems h acc)).
(** *** The dispatch goroutine: the body of [case <-s.timer.C]

    [now] is the clock reading used by [timer.Reset]. The statements
    are in source order; [prom.ID()] on a nil [prom] and [s.time.Unix]
    on a nil [s.time] are nil dereferences. When the send on [s.sema]
    finds the channel full the goroutine stays there, with the entry back
    in the tree, the run registered and the wait group counted. *)
Definition on_tick (now : instant) (s : TreeScheduler)
    : outcome TreeScheduler TreeScheduler :=
  match BTree.DeleteMin (scheduled s) with
  | None => Returns (set_timer (timer_Reset now maxWaitTime (timer s)) s)
  | Some (it, rest) =>
      let s := set_scheduled rest s in
      let '(prom, err) := executor s (id it) (time_Unix (next it) 0) in
      let s := emit (EvExecutor (id it) (time_Unix (next it) 0)) s in
      match err with
      | None =>
          match time s with
          | None => Panics "nil pointer dereference: s.time.Unix" s
          | Some clock =>
              let '(t, err) := Next (cron it) (ts_Unix clock (next it) 0) in
              let it := {| cron := cron it; next := Unix t; nonce := nonce it;
                           offset := offset it; id := id it |} in
              obind
                (match err with
                 | Some e =>
                     let it := {| cron := cron it; next := next it;
                                  nonce := wrap_int (nonce it + 1);
                                  offset := offset it; id := id it |} in
                     match prom with
                     | None => Panics "nil pointer dereference: prom.ID" s
                     | Some p =>
                         obind (call_onErr (id it) (prom_ID p)
                                  (time_Unix (next it) 0) e s)
                           (fun s => Returns (it, s))
                     end
                 | None => Returns (it, s)
                 end)
                (fun '(it, s) =>
                   obind (insert_scheduled it s) (fun s =>
                   match prom with
                   | None => Returns s
                   | Some p =>
                       obind
                         (insert_running
                            {| cancel := Some (prom_Cancel p);
                               runID := prom_ID p; taskID := id it |} s)
                         (fun s =>
                            let s := set_wg (wg s + 1) s in
                            if sema s <? sema_cap s then
                              let s := set_sema (sema s + 1) (sema_cap s) s in
                              Returns (set_waiting (waiting s ++ [(it, p)]) s)
                            else Blocks "s.sema" s)
                   end))
          end
      | Some e => call_onErr (id it) 0 (time_Unix (next it) 0) e s
      end
  end.

(** One turn of the [select]: [s.done] is a nil channel, so only a tick
    of the timer wakes the loop. *)
Definition loop_iteration (now : instant) (s : TreeScheduler)
    : outcome TreeScheduler TreeScheduler :=
  if tick (timer s) then on_tick now (set_timer (timer_taken (timer s)) s)
  else Blocks "s.timer.C" s.

(** *** The waiter goroutine, from the moment [<-prom.Done()] returns

    The deferred function runs on every exit, a panic in the error
    handler included. *)
Definition waiter_run (s : TreeScheduler) (it : item) (prom : Promise)
    : outcome TreeScheduler TreeScheduler :=
  let deferred s := set_sema (sema s - 1) (sema_cap s) (set_wg (wg s - 1) s) in
  let err := prom_Error prom in
  match err with
  | Some e =>
      match call_onErr (id it) (prom_ID prom) (time_Unix (next it) 0) e s with
      | Returns s => Returns (deferred s)
      | Panics m s => Panics m (deferred s)
      | Blocks c s => Blocks c s
      end
  | None =>
      Returns
        (deferred (set_running
                     (BTree.Delete runningItem_Less
                        {| cancel := Some (prom_Cancel prom);
                           runID := prom_ID prom; taskID := id it |}
                        (running s)) s))
  end.

(** The scheduler as the waiter leaves it. *)
Definition waiter (s : TreeScheduler) (it : item) (prom : Promise) : TreeScheduler :=
  state_of (waiter_run s it prom).

(** *** Stop: the send on the nil [s.done] never completes. *)
Definition Stop (s : TreeScheduler) : outcome TreeScheduler TreeScheduler :=
  let semaCap := sema_cap s in
  Blocks "s.done" s.

(** ** Sequences of public calls *)

Inductive call : Type :=
| CallSchedule (i : ID) (cronString : string) (off : Duration) (since : instant)
| CallRelease (tid : ID).

Definition do_call (now : instant) (s : TreeScheduler) (c : call)
    : outcome TreeScheduler TreeScheduler :=
  match c with
  | CallSchedule i e off since =>
      obind (Schedule now s i e off since) (fun '(s', _) => Returns s')
  | CallRelease tid => obind (Release s tid) (fun '(s', _) => Returns s')
  end.

Fixpoint do_calls (now : instant) (s : TreeScheduler) (cs : list call)
    : outcome TreeScheduler TreeScheduler :=
  match cs with
  | [] => Returns s
  | c :: cs' => obind (do_call now s c) (fun s' => do_calls now s' cs')
  end.

(** ** What the spec asks of the state *)



(** No running entry is left for the run [(tid, rid)]. *)
Definition run_removed (s : TreeScheduler) (tid rid : ID) : Prop :=
  forall r, r ∈ running s -> ~ (taskID r = tid /\ runID r = rid).

(** The order the spec gives for scheduled entries: lexicographic on
    (nextFireUnixSeconds, nonce, taskID). *)
Definition lex_lt (a b : item) : Prop :=
  next a < next b
  \/ (next a = next b /\ nonce a < nonce b)
  \/ (next a = next b /\ nonce a = nonce b /\ id a < id b).
End Scheduler.

(** ** The goroutines interleaved

    What can happen to a scheduler once it is built: a caller runs
    [Schedule] or [Release], the runtime delivers the tick of an armed
    timer, the dispatch goroutine takes a turn of its [select], a waiter is
    resumed by its promise. An action that panics or blocks ends the run. *)

Section Interleaving.
Context {C : Cron} {W : Walk} {R : Runtime}.

Inductive action : Type :=
| ActCall (c : call)
| ActFire
| ActLoop
| ActWaiter (it : item) (prom : Promise).

Definition do_action (now : instant) (s : TreeScheduler) (a : action)
    : outcome TreeScheduler TreeScheduler :=
  match a with
  | ActCall c => do_call now s c
  | ActFire =>
      Returns (if active (timer s) then set_timer (timer_fire (timer s)) s else s)
  | ActLoop => loop_iteration now s
  | ActWaiter it prom => waiter_run s it prom
  end.

(** Each action comes with the clock reading at which it happens. *)
Fixpoint do_actions (s : TreeScheduler) (acts : list (instant * action))
    : outcome TreeScheduler TreeScheduler :=
  match acts with
  | [] => Returns s
  | (now, a) :: acts' => obind (do_action now s a) (fun s' => do_actions s' acts')
  end.

(** How many times the executor was called, by the log. *)
Fixpoint executor_calls (l : list event) : nat :=
  match l with
  | [] => O
  | EvExecutor _ _ :: l' => S (executor_calls l')
  | _ :: l' => executor_calls l'
  end.

(** The options the package offers. *)
Inductive package_option : treeSchedulerOptFunc -> Prop :=
| option_onErr fn : package_option (WithOnErrorFn fn)
| option_maxRuns n : package_option (WithMaxRunsOutsanding n)
| option_time t : package_option (WithTime t).

(** A scheduler on which nothing has happened yet: its two trees are the
    zero values the struct literal left, [nextTime] is empty, there is no
    token in [sema], no waiter, no call made, the executor is [ex], and
    the clock is either nil or the standard one. *)
Definition newly_built (ex : ExecutorFunc) (s : TreeScheduler) : Prop :=
  scheduled s = [] /\ running s = [] /\ nextTime s = ∅
  /\ sema s = 0 /\ 0 <= sema_cap s /\ wg s = 0 /\ waiting s = []
  /\ log s = [] /\ executor s = ex
  /\ (time s = None \/ time s = Some stdTime)
  /\ scheduled_made s = false /\ running_made s = false.

(** A scheduler whose trees were never made and hold nothing, whose
    [nextTime] is empty and whose executor has not been called. *)
Definition idle (s : TreeScheduler) : Prop :=
  scheduled_made s = false /\ running_made s = false
  /\ scheduled s = [] /\ running s = [] /\ nextTime s = ∅
  /\ executor_calls (log s) = 0%nat.

(** What is left of the timer's one shot: [nextTime] is empty, a pending
    tick means the timer is no longer armed, and either the executor has
    not been called yet, or it has been called once and the timer is
    neither armed nor about to tick. *)
Definition one_shot (s : TreeScheduler) : Prop :=
  nextTime s = ∅
  /\ (tick (timer s) = true -> active (timer s) = false)
  /\ (executor_calls (log s) = 0%nat
      \/ (executor_calls (log s) = 1%nat
          /\ active (timer s) = false /\ tick (timer s) = false)).
End Interleaving.

(** ** Instances to run the scheduler on *)

(** A cron collaborator of the [Cron] interface, not the library itself:
    it accepts the single expression ["* * * * *"] (every minute); [Next]
    gives the first whole minute strictly after its argument, or the zero
    [time.Time] and an error when that minute is not before the year 2100,
    the horizon the spec names. *)

Module MinuteCron.
Inductive parsed : Type := EveryMinute.

Definition horizon : instant := time_Unix 4102444800 0.
Definition zeroTime : instant := time_Unix (-62135596800) 0.

Definition next_minute (t : instant) : instant :=
  time_Unix ((Unix t / 60 + 1) * 60) 0.

Definition cron : Cron :=
  {| Parsed := parsed;
     Parsed_zero := EveryMinute;
     ParseUTC := fun e =>
       if String.eqb e "* * * * *" then inl EveryMinute
       else inr "cron: invalid expression";
     Next := fun _ t =>
       let n := next_minute t in
       if n <? horizon then (n, None)
       else (zeroTime, Some "cron: no viable time before the horizon") |}.
End MinuteCron.

(** A 64-bit runtime whose allocations are bounded by 2^48 bytes, on a
    machine that grants what the runtime lets through; and a library whose
    walk stops as soon as the tree is written under it. *)

Module Machine.
Lemma maxAlloc_48 : 2 ^ 48 < 2 ^ 64.
Proof. reflexivity. Qed.

Definition runtime : Runtime :=
  {| maxAlloc := 2 ^ 48; maxAlloc_word := maxAlloc_48; grants := fun _ => true |}.

Definition walk : Walk :=
  {| resume_walk := fun _ reg _ => Returns reg |}.
End Machine.

(** ** Concrete schedulers

    The states the examples run on, all over [MinuteCron.cron] and
    [Machine]. Instants are written in nanoseconds: minute one of the
    epoch is [60000000000]. *)

Module Scenario.
(** The handle of the run [100 + id]; [perr] is what its [Error()] says
    once it is done. *)
Definition handle (perr : option Err) (i : ID) : Promise :=
  {| prom_ID := 100 + i; prom_Cancel := Z.to_nat i; prom_Error := perr |}.

(** An executor that starts a run for every task. *)
Definition exec_run (perr : option Err) : ExecutorFunc :=
  fun i _ => (Some (handle perr i), None).

(** An executor that fails before producing a handle. *)
Definition exec_fail : ExecutorFunc :=
  fun _ _ => (None, Some "executor: cannot start").

(** What [NewScheduler] returns when the clock reads 0; [clock] is
    [Some stdTime] when the [WithTime] option was given. *)
Definition fresh (ex : ExecutorFunc) (clock : option TimeSrc)
    : TreeScheduler (C := MinuteCron.cron) :=
  {| scheduled_made := false; scheduled := [];
     running_made := false; running := []; nextTime := ∅;
     when := 3600000000000000000;
     executor := ex;
     onErr := Some (fun _ _ _ _ => true);
     time := clock;
     timer := {| active := true; deadline := 3600000000000000000; tick := false |};
     sema := 0; sema_cap := 65536; wg := 0; waiting := []; log := [] |}.

(** The entry [Schedule] builds for a task due at second [n]. *)
Definition entry (n : Z) (i : ID) : item (C := MinuteCron.cron) :=
  @Build_item MinuteCron.cron MinuteCron.EveryMinute n 0 0 i.

(** A scheduler whose two trees were made by [btree.New], as no function
    of the package builds it: the entry of task 5 in the scheduled tree,
    its run 105 in the running registry and the waiter of that run
    parked. *)
Definition after_dispatch (perr : option Err) : TreeScheduler (C := MinuteCron.cron) :=
  {| scheduled_made := true; scheduled := [entry 120 5];
     running_made := true;
     running := [{| cancel := Some 5%nat; runID := 105; taskID := 5 |}];
     nextTime := ∅;
     when := 3600000000000000000;
     executor := exec_run perr;
     onErr := Some (fun _ _ _ _ => true);
     time := Some stdTime;
     timer := {| active := false; deadline := 3600000000000000000; tick := false |};
     sema := 1; sema_cap := 65536; wg := 1;
     waiting := [(entry 120 5, handle perr 5)];
     log := [EvExecutor 5 60000000000] |}.

(** The last minute before the year 2100, in seconds. *)
Definition last_minute : Z := 4102444740.
End Scenario.


(** * Properties *)

(** ** The ordered tree *)

Section TreeFacts.
Context {A : Type}.
Variable Less : A -> A -> bool.

Lemma DeleteMin_nonempty (t : list A) :
  t <> [] -> exists m t', BTree.DeleteMin t = Some (m, t').
Proof. destruct t as [|m t']; [done | intros _; by exists m, t']. Qed.

Lemma DeleteMin_least (t : list A) m t' :
  BTree.sorted Less t -> BTree.DeleteMin t = Some (m, t') ->
  Forall (fun y => Less m y = true) t' /\ BTree.sorted Less t'.
Proof. destruct t as [|x l]; simpl; [done |]. intros Hs [= <- <-]. exact Hs. Qed.

Lemma Delete_sublist x (t : list A) : sublist (BTree.Delete Less x t) t.
Proof.
  induction t as [|y t IH]; simpl; [done |].
  destruct (BTree.same Less x y); [by apply sublist_cons | by apply sublist_skip].
Qed.

Lemma sorted_sublist (t1 t2 : list A) :
  sublist t1 t2 -> BTree.sorted Less t2 -> BTree.sorted Less t1.
Proof.
  induction 1 as [|x l1 l2 Hsub IH|x l1 l2 Hsub IH]; simpl; [done | |].
  - intros [Hx Hs]. split; [|by apply IH].
    apply Forall_forall. intros z Hz.
    rewrite Forall_forall in Hx. apply Hx. by eapply elem_of_sublist.
  - intros [_ Hs]. by apply IH.
Qed.

Lemma sorted_Delete x (t : list A) :
  BTree.sorted Less t -> BTree.sorted Less (BTree.Delete Less x t).
Proof. apply sorted_sublist, Delete_sublist. Qed.

Lemma elem_of_ReplaceOrInsert x (t : list A) y :
  y ∈ BTree.ReplaceOrInsert Less x t -> y = x \/ y ∈ t.
Proof.
  induction t as [|z t IH]; simpl.
  - rewrite list_elem_of_singleton. tauto.
  - destruct (Less x z); [|destruct (Less z x)]; rewrite !elem_of_cons.
    + tauto.
    + intros [->|H]; [tauto | destruct (IH H); tauto].
    + tauto.
Qed.

Lemma ReplaceOrInsert_elem x (t : list A) : x ∈ BTree.ReplaceOrInsert Less x t.
Proof.
  induction t as [|z t IH]; simpl.
  - by apply list_elem_of_singleton.
  - destruct (Less x z); [|destruct (Less z x)]; rewrite !elem_of_cons; tauto.
Qed.

(** [Less] is a strict weak order. *)
Hypothesis Less_irrefl : forall x, Less x x = false.
Hypothesis Less_trans :
  forall x y z, Less x y = true -> Less y z = true -> Less x z = true.
Hypothesis Less_cotrans :
  forall x y z, Less x z = true -> Less x y = true \/ Less y z = true.

Lemma sorted_ReplaceOrInsert x (t : list A) :
  BTree.sorted Less t -> BTree.sorted Less (BTree.ReplaceOrInsert Less x t).
Proof using Less_trans Less_cotrans.
  induction t as [|y t IH]; simpl.
  - intros _. split; [constructor | done].
  - intros [Hy Hs]. destruct (Less x y) eqn:Hxy; [|destruct (Less y x) eqn:Hyx].
    + simpl. split; [|done]. constructor; [done |].
      eapply Forall_impl; [exact Hy |]. simpl. intros z Hz. by eapply Less_trans.
    + simpl. split; [|by apply IH].
      apply Forall_forall. intros z Hz.
      destruct (elem_of_ReplaceOrInsert _ _ _ Hz) as [->|Hin]; [done |].
      by eapply (proj1 (Forall_forall _ _) Hy).
    + simpl. split; [|done].
      eapply Forall_impl; [exact Hy |]. simpl. intros z Hz.
      destruct (Less_cotrans y x z Hz) as [H|H]; [congruence | done].
Qed.

(** In a sorted tree [x < y] puts [x] before [y]. *)
Lemma sorted_before (t : list A) x y :
  BTree.sorted Less t -> x ∈ t -> y ∈ t -> Less x y = true ->
  exists l1 l2 l3, t = l1 ++ x :: l2 ++ y :: l3.
Proof using Less_irrefl Less_trans.
  induction t as [|z t IH]; simpl; intros Hs Hx Hy Hlt.
  - by apply elem_of_nil in Hx.
  - destruct Hs as [Hz Hs].
    apply elem_of_cons in Hx as [->|Hx].
    + apply elem_of_cons in Hy as [->|Hy]; [by rewrite Less_irrefl in Hlt |].
      apply list_elem_of_split in Hy as (l2 & l3 & ->).
      by exists [], l2, l3.
    + apply elem_of_cons in Hy as [->|Hy].
      * rewrite Forall_forall in Hz. specialize (Hz _ Hx).
        pose proof (Less_trans _ _ _ Hz Hlt) as Hzz.
        by rewrite Less_irrefl in Hzz.
      * destruct (IH Hs Hx Hy Hlt) as (l1 & l2 & l3 & ->).
        by exists (z :: l1), l2, l3.
Qed.
End TreeFacts.

(** ** More on the ordered tree *)

Section TreeMore.
Context {A : Type}.
Variable Less : A -> A -> bool.

Lemma ReplaceOrInsert_keeps x (t : list A) y :
  y ∈ t -> BTree.same Less x y = false -> y ∈ BTree.ReplaceOrInsert Less x t.
Proof.
  unfold BTree.same. induction t as [|z t IH]; simpl; intros Hy Hne.
  - by apply elem_of_nil in Hy.
  - destruct (Less x z) eqn:Hxz; [by apply list_elem_of_further |].
    destruct (Less z x) eqn:Hzx.
    + apply elem_of_cons in Hy as [->|Hy]; [apply list_elem_of_here |].
      apply list_elem_of_further. by apply IH.
    + apply elem_of_cons in Hy as [->|Hy]; [by rewrite Hxz, Hzx in Hne |].
      by apply list_elem_of_further.
Qed.

Lemma Delete_keeps x (t : list A) y :
  y ∈ t -> BTree.same Less x y = false -> y ∈ BTree.Delete Less x t.
Proof.
  induction t as [|z t IH]; simpl; intros Hy Hne; [done |].
  apply elem_of_cons in Hy as [->|Hy].
  - rewrite Hne. apply list_elem_of_here.
  - destruct (BTree.same Less x z); [done |].
    apply list_elem_of_further. by apply IH.
Qed.

Lemma Delete_absent x (t : list A) :
  (forall y, y ∈ t -> BTree.same Less x y = false) -> BTree.Delete Less x t = t.
Proof.
  induction t as [|z t IH]; simpl; intros Habs; [done |].
  rewrite (Habs z) by apply list_elem_of_here.
  f_equal. apply IH. intros y Hy. apply Habs. by apply list_elem_of_further.
Qed.

Hypothesis Less_irrefl : forall x, Less x x = false.

Lemma same_refl x : BTree.same Less x x = true.
Proof using Less_irrefl. unfold BTree.same. by rewrite Less_irrefl. Qed.

Lemma ReplaceOrInsert_idem x (t : list A) :
  BTree.ReplaceOrInsert Less x (BTree.ReplaceOrInsert Less x t)
  = BTree.ReplaceOrInsert Less x t.
Proof using Less_irrefl.
  induction t as [|z t IH]; simpl.
  - by rewrite Less_irrefl.
  - destruct (Less x z) eqn:Hxz; [|destruct (Less z x) eqn:Hzx]; simpl.
    + by rewrite Less_irrefl.
    + by rewrite Hxz, Hzx, IH.
    + by rewrite Less_irrefl.
Qed.

Lemma Delete_ReplaceOrInsert x (t : list A) :
  (forall y, y ∈ t -> BTree.same Less x y = false) ->
  BTree.Delete Less x (BTree.ReplaceOrInsert Less x t) = t.
Proof using Less_irrefl.
  induction t as [|z t IH]; simpl; intros Habs.
  - by rewrite same_refl.
  - pose proof (Habs z (list_elem_of_here _ _)) as Hz. unfold BTree.same in Hz.
    destruct (Less x z) eqn:Hxz; [|destruct (Less z x) eqn:Hzx]; simpl.
    + by rewrite same_refl.
    + unfold BTree.same at 1. rewrite Hxz, Hzx. simpl. f_equal.
      apply IH. intros y Hy. apply Habs. by apply list_elem_of_further.
    + done.
Qed.

Hypothesis Less_cotrans :
  forall x y z, Less x z = true -> Less x y = true \/ Less y z = true.

(** A strictly ascending tree holds at most one item per key. *)
Lemma Delete_removes x (t : list A) y :
  BTree.sorted Less t -> y ∈ BTree.Delete Less x t -> BTree.same Less x y = false.
Proof using Less_cotrans.
  induction t as [|z t IH]; simpl; intros Hs Hy.
  - by apply elem_of_nil in Hy.
  - destruct Hs as [Hz Hs]. destruct (BTree.same Less x z) eqn:Hxz.
    + rewrite Forall_forall in Hz. specialize (Hz _ Hy).
      unfold BTree.same in *.
      apply andb_true_iff in Hxz as [Hxz Hzx].
      apply negb_true_iff in Hxz, Hzx.
      destruct (Less_cotrans z x y Hz) as [H|H]; [congruence |].
      by rewrite H.
    + apply elem_of_cons in Hy as [->|Hy]; [done | by apply IH].
Qed.
End TreeMore.

(** ** The two orders *)

Section Orders.
Context {C : Cron}.

Lemma item_Less_lex (a b : item) : item_Less a b = true <-> lex_lt a b.
Proof.
  unfold item_Less, lex_lt.
  rewrite !orb_true_iff, !andb_true_iff, !orb_true_iff, !andb_true_iff,
    !Z.ltb_lt, !Z.eqb_eq.
  tauto.
Qed.

Lemma item_Less_false (a b : item) : item_Less a b = false <-> ~ lex_lt a b.
Proof. rewrite <- item_Less_lex. by destruct (item_Less a b). Qed.

Lemma item_Less_irrefl (a : item) : item_Less a a = false.
Proof. apply item_Less_false. unfold lex_lt. lia. Qed.

Lemma item_Less_trans (a b c : item) :
  item_Less a b = true -> item_Less b c = true -> item_Less a c = true.
Proof. rewrite !item_Less_lex. unfold lex_lt. lia. Qed.

Lemma item_Less_cotrans (a b c : item) :
  item_Less a c = true -> item_Less a b = true \/ item_Less b c = true.
Proof. rewrite !item_Less_lex. unfold lex_lt. lia. Qed.

Lemma item_Less_total (a b : item) :
  item_Less a b = false -> item_Less b a = false ->
  next a = next b /\ nonce a = nonce b /\ id a = id b.
Proof. rewrite !item_Less_false. unfold lex_lt. lia. Qed.

Lemma runningItem_Less_pairs (a b : runningItem) :
  runningItem_Less a b = true
  <-> taskID a < taskID b \/ (taskID a = taskID b /\ runID a < runID b).
Proof.
  unfold runningItem_Less.
  rewrite orb_true_iff, andb_true_iff, !Z.ltb_lt, Z.eqb_eq. tauto.
Qed.

Lemma runningItem_Less_not (a b : runningItem) :
  runningItem_Less a b = false
  <-> ~ (taskID a < taskID b \/ (taskID a = taskID b /\ runID a < runID b)).
Proof. rewrite <- runningItem_Less_pairs. by destruct (runningItem_Less a b). Qed.

Lemma runningItem_Less_irrefl (a : runningItem) : runningItem_Less a a = false.
Proof. apply runningItem_Less_not. lia. Qed.

Lemma runningItem_Less_trans (a b c : runningItem) :
  runningItem_Less a b = true -> runningItem_Less b c = true ->
  runningItem_Less a c = true.
Proof. rewrite !runningItem_Less_pairs. lia. Qed.

Lemma runningItem_Less_cotrans (a b c : runningItem) :
  runningItem_Less a c = true ->
  runningItem_Less a b = true \/ runningItem_Less b c = true.
Proof. rewrite !runningItem_Less_pairs. lia. Qed.

Lemma running_same_iff (a b : runningItem) :
  BTree.same runningItem_Less a b = true
  <-> taskID a = taskID b /\ runID a = runID b.
Proof.
  unfold BTree.same.
  rewrite andb_true_iff, !negb_true_iff, !runningItem_Less_not. lia.
Qed.

Lemma running_same_false (a b : runningItem) :
  BTree.same runningItem_Less a b = false
  <-> taskID a <> taskID b \/ runID a <> runID b.
Proof.
  destruct (BTree.same runningItem_Less a b) eqn:H.
  - apply running_same_iff in H. split; [done | lia].
  - split; [intros _ | done].
    destruct (decide (taskID a = taskID b)) as [Ht|]; [|by left].
    destruct (decide (runID a = runID b)) as [Hr|]; [|by right].
    assert (BTree.same runningItem_Less a b = true) by by apply running_same_iff.
    congruence.
Qed.

(** X1: [runningItem.Less] is the strict lexicographic order on
    (taskID, runID): irreflexive, transitive, and two entries that it does
    not order have the same task id and the same run id. *)
Theorem runningItem_Less_strict_total :
  (forall a : runningItem, runningItem_Less a a = false)
  /\ (forall a b c : runningItem,
        runningItem_Less a b = true -> runningItem_Less b c = true ->
        runningItem_Less a c = true)
  /\ (forall a b : runningItem,
        runningItem_Less a b = false -> runningItem_Less b a = false ->
        taskID a = taskID b /\ runID a = runID b)
  /\ (forall a b : runningItem,
        taskID a < taskID b -> runningItem_Less a b = true).
Proof.
  split; [exact runningItem_Less_irrefl |].
  split; [exact runningItem_Less_trans |].
  split.
  - intros a b. rewrite !runningItem_Less_not. lia.
  - intros a b H. apply runningItem_Less_pairs. lia.
Qed.
End Orders.

(** ** Schedule and Release *)

Section ScheduleRelease.
Context {C : Cron} {W : Walk} {R : Runtime}.

(** On a scheduled tree that was never made, the insert of a task that is
    not a key of [nextTime] panics before anything is written. *)
Lemma Schedule_unmade now (s : TreeScheduler) i e off since crSch nt :
  ParseUTC e = inl crSch -> Next crSch since = (nt, None) ->
  nextTime s !! i = None -> scheduled_made s = false ->
  Schedule now s i e off since
  = Panics "nil pointer dereference: ReplaceOrInsert on a zero-value BTree" s.
Proof.
  intros Hp Hn Hl Hm. unfold Schedule. rewrite Hp, Hn, Hl.
  unfold insert_scheduled, BTree.Insert. by rewrite Hm.
Qed.

Lemma Release_absent (s : TreeScheduler) tid :
  nextTime s !! tid = None -> Release s tid = Returns (s, None).
Proof. intros H. unfold Release. by rewrite H. Qed.

(** C9: when the cron expression does not parse, [Schedule] returns the
    parse error and the scheduler it returns is the one it was given:
    scheduled tree, [nextTime], armed wake time, timer and running registry
    are all untouched, so the task is not registered. *)
Theorem Schedule_invalid_cron now (s : TreeScheduler) i e off since err :
  ParseUTC e = inr err ->
  Schedule now s i e off since = Returns (s, Some err).
Proof. intros H. unfold Schedule. by rewrite H. Qed.

(** X3: [Schedule] returns an error in two cases only, a cron expression
    that does not parse and a schedule with no next instant after [since],
    and in both it hands back the scheduler untouched. *)
Theorem Schedule_error_iff now (s s' : TreeScheduler) i e off since err :
  Schedule now s i e off since = Returns (s', Some err)
  <-> s' = s
      /\ (ParseUTC e = inr err
          \/ exists crSch nt,
               ParseUTC e = inl crSch /\ Next crSch since = (nt, Some err)).
Proof.
  split.
  - unfold Schedule, obind, insert_scheduled, BTree.Insert. intros H.
    destruct (ParseUTC e) as [crSch|err0] eqn:Hp.
    + destruct (Next crSch since) as [nt [err0|]] eqn:Hn.
      * injection H as <- <-. split; [done |]. right. by exists crSch, nt.
      * destruct (nextTime s !! i).
        -- destruct (Before (when s) nt); simpl in H.
           ++ destruct (active (timer s)); simpl in H.
              ** destruct (scheduled_made s); simpl in H; done.
              ** destruct (tick (timer s)); simpl in H; [|done].
                 destruct (scheduled_made s); simpl in H; done.
           ++ destruct (scheduled_made s); simpl in H; done.
        -- destruct (scheduled_made s); simpl in H; done.
    + injection H as <- <-. split; [done | by left].
  - intros [-> [Hp|(crSch & nt & Hp & Hn)]]; unfold Schedule.
    + by rewrite Hp.
    + by rewrite Hp, Hn.
Qed.

(** X4: on a scheduler whose scheduled tree was never made, as
    [NewScheduler] leaves it, [Schedule] never registers a task that is
    not a key of [nextTime]: it returns the parser's or the schedule's
    error, or it panics in [ReplaceOrInsert]; either way the scheduler is
    left as it was. *)
Theorem Schedule_never_registers now (s : TreeScheduler) i e off since :
  scheduled_made s = false -> nextTime s !! i = None ->
  (exists err, Schedule now s i e off since = Returns (s, Some err))
  \/ Schedule now s i e off since
     = Panics "nil pointer dereference: ReplaceOrInsert on a zero-value BTree" s.
Proof.
  intros Hm Hl.
  destruct (ParseUTC e) as [crSch|err] eqn:Hp.
  - destruct (Next crSch since) as [nt [err|]] eqn:Hn.
    + left. exists err. unfold Schedule. by rewrite Hp, Hn.
    + right. by eapply Schedule_unmade.
  - left. exists err. by apply Schedule_invalid_cron.
Qed.

(** X2: however [Release] ends, it calls no collaborator (in particular
    no cancel function) and leaves [nextTime], the wake time and the timer
    as they were, and it only ever takes entries out of the scheduled
    tree; when it returns, it returns a nil error; and for a task that is
    not a key of [nextTime] it returns at once, the scheduler untouched. *)
Theorem Release_frame now (s : TreeScheduler) (tid : ID) :
  log (state_of (do_call now s (CallRelease tid))) = log s
  /\ nextTime (state_of (do_call now s (CallRelease tid))) = nextTime s
  /\ when (state_of (do_call now s (CallRelease tid))) = when s
  /\ timer (state_of (do_call now s (CallRelease tid))) = timer s
  /\ sublist (scheduled (state_of (do_call now s (CallRelease tid))))
       (scheduled s)
  /\ (forall s' err, Release s tid = Returns (s', err) -> err = None)
  /\ (nextTime s !! tid = None -> Release s tid = Returns (s, None)).
Proof.
  assert (forall s0 : TreeScheduler,
            let o := walk_clearTask tid s0 in
            log (state_of o) = log s0 /\ nextTime (state_of o) = nextTime s0
            /\ when (state_of o) = when s0 /\ timer (state_of o) = timer s0
            /\ scheduled (state_of o) = scheduled s0) as Hwalk.
  { intros s0. unfold walk_clearTask.
    destruct (BTree.first_from _ _ _) as [x|]; simpl; [|done].
    unfold clearTask. destruct (taskID x =? tid); simpl; [|done].
    destruct (resume_walk _ _ _); simpl; done. }
  simpl. unfold Release.
  destruct (nextTime s !! tid) as [n|] eqn:Hl; simpl.
  - match goal with
    | |- context [walk_clearTask tid ?s0] =>
        specialize (Hwalk s0); simpl in Hwalk;
        destruct (walk_clearTask tid s0) as [s1|m s1|c s1]; simpl in *;
        destruct Hwalk as (-> & -> & -> & -> & ->)
    end; (repeat split; try done; try apply Delete_sublist);
      try (intros s' err [= <- <-]; done).
  - repeat split; try done. by intros s' err [= <- <-].
Qed.
End ScheduleRelease.

(** ** Runs *)

Section RunsFacts.
Context {C : Cron} {R : Runtime}.

(** The header [runs] returns has length 0 whatever the closure appends to
    its own copy, so [Runs], when it returns, reports no run. *)
Lemma Runs_returns_nothing (s : TreeScheduler) tid limit l :
  Runs s tid limit = Returns l -> l = [].
Proof.
  unfold Runs, runs.
  destruct ((limit <? 0) || (maxAlloc <? 8 * limit)); [done |].
  destruct (negb (grants (8 * limit))); [done |]. simpl.
  destruct (BTree.AscendGreaterOrEqual _ _ _ _ _) as [h acc]. simpl.
  unfold GoSlice.elems. simpl. rewrite take_0. by intros [= <-].
Qed.

(** X7: [Runs] answers the same for every scheduler and every task. It
    panics in [make] for a negative limit and for one whose array of 8-byte
    ids is beyond what the runtime allocates, it dies when the memory is
    refused, and otherwise it returns the empty list, whatever the running
    registry holds. *)
Theorem Runs_result (s : TreeScheduler) (tid : ID) (limit : Z) :
  Runs s tid limit
  = if (limit <? 0) || (maxAlloc <? 8 * limit)
    then Panics "makeslice: cap out of range" tt
    else if negb (grants (8 * limit))
         then Panics "fatal error: runtime: out of memory" tt
         else Returns [].
Proof.
  unfold Runs, runs.
  destruct ((limit <? 0) || (maxAlloc <? 8 * limit)); [done |].
  destruct (negb (grants (8 * limit))); [done |]. simpl.
  destruct (BTree.AscendGreaterOrEqual _ _ _ _ _) as [h acc]. simpl.
  unfold GoSlice.elems. simpl. by rewrite take_0.
Qed.

(** C5: [Runs(taskID, 1<<62)] panics in [make], on every scheduler and
    for every task: the capacity asked for, 2^62 ids of 8 bytes, is more
    than a machine word can count, whatever the runtime's own bound. *)
Theorem Runs_panics_on_large_limit (s : TreeScheduler) (tid : ID) :
  Runs s tid (2 ^ 62) = Panics "makeslice: cap out of range" tt.
Proof.
  unfold Runs, runs.
  pose proof maxAlloc_word as Hw.
  destruct (maxAlloc <? 8 * 2 ^ 62) eqn:Hlt; [|lia].
  by rewrite orb_true_r.
Qed.
End RunsFacts.

(** ** NewScheduler *)

Section NewSchedulerFacts.
Context {C : Cron}.

Lemma package_option_keeps ex (o : treeSchedulerOptFunc) (s s' : TreeScheduler) err :
  package_option o -> newly_built ex s -> o s = Returns (s', err) ->
  err = None /\ newly_built ex s'.
Proof.
  unfold newly_built.
  intros Ho (Hsch & Hrun & Hnt & Hsema & Hcap & Hwg & Hwait & Hlog & Hex
             & Htime & Hsm & Hrm).
  destruct Ho as [fn|n|t]; simpl.
  - intros [= <- <-]. simpl. tauto.
  - unfold WithMaxRunsOutsanding. destruct (n <? 0) eqn:Hn; [done |].
    intros [= <- <-]. simpl. repeat split; try done. lia.
  - intros [= <- <-]. simpl. repeat split; try done. by right.
Qed.

Lemma apply_opts_keeps ex opts : forall (s s' : TreeScheduler) err,
  Forall package_option opts -> newly_built ex s ->
  apply_opts opts s = Returns (s', err) ->
  err = None /\ newly_built ex s'.
Proof.
  induction opts as [|o opts IH]; simpl; intros s s' err Hall Hs.
  - by intros [= <- <-].
  - apply Forall_cons in Hall as [Ho Hall].
    destruct (o s) as [[s1 e1]| |] eqn:Hos; simpl; [|done..].
    destruct (package_option_keeps ex o s s1 e1 Ho Hs Hos) as [-> Hs1].
    by apply IH.
Qed.

(** X8: without an executor [NewScheduler] never hands out a scheduler,
    whatever the options: what it returns is nil and an error. *)
Theorem NewScheduler_needs_executor now opts (r : option TreeScheduler) e :
  NewScheduler now None opts = Returns (r, e) -> r = None /\ e <> None.
Proof.
  unfold NewScheduler, obind, in_state.
  destruct (apply_opts opts _) as [[s [err|]]| |]; [| |done..];
    by intros [= <- <-].
Qed.

(** X9: with an executor and options of the package, whatever
    [NewScheduler] returns is a scheduler and no error; nothing has
    happened on it yet, its wake time is the clock plus [maxWaitTime] and
    its timer is armed for that instant. Its clock is nil or the standard
    one, whichever clock [WithTime] was given. *)
Theorem NewScheduler_result now ex opts (r : option TreeScheduler) e :
  Forall package_option opts ->
  NewScheduler now (Some ex) opts = Returns (r, e) ->
  exists s,
    r = Some s /\ e = None /\ newly_built ex s
    /\ when s = now + maxWaitTime
    /\ timer s = {| active := true; deadline := now + maxWaitTime; tick := false |}.
Proof.
  intros Hopts. unfold NewScheduler, obind, in_state.
  match goal with
  | |- context [apply_opts opts ?s0] =>
      destruct (apply_opts opts s0) as [[s err]| |] eqn:Happ; [|done..];
      destruct (apply_opts_keeps ex opts s0 s err Hopts) as [-> Hs]; [|done|]
  end.
  { unfold newly_built. simpl. repeat split; try done. by left. }
  intros [= <- <-]. eexists. split; [done |]. split; [done |].
  split; [exact Hs |]. simpl. unfold Add, NewTimer, Until. simpl.
  split; [done |]. f_equal. lia.
Qed.
End NewSchedulerFacts.

(** ** The dispatch loop and the waiter *)

Section DispatchFacts.
Context {C : Cron}.

(** X10: a tick that finds the scheduled tree empty re-arms the timer for
    the clock plus [maxWaitTime] and changes nothing else: no collaborator
    is called and [when] keeps the value it had. *)
Theorem loop_iteration_empty now (s : TreeScheduler) :
  tick (timer s) = true -> scheduled s = [] ->
  loop_iteration now s
  = Returns (set_timer {| active := true; deadline := now + maxWaitTime;
                          tick := false |} s).
Proof.
  intros Ht Hs. unfold loop_iteration. rewrite Ht.
  unfold on_tick. simpl. by rewrite Hs.
Qed.


(** X15: when the run ended without error, the waiter takes its entry,
    and only its entry, out of the running registry, and calls no
    collaborator. *)
Theorem waiter_removes_run (s : TreeScheduler) it p :
  prom_Error p = None ->
  BTree.sorted runningItem_Less (running s) ->
  run_removed (waiter s it p) (id it) (prom_ID p)
  /\ (forall r, r ∈ running s ->
        taskID r <> id it \/ runID r <> prom_ID p -> r ∈ running (waiter s it p))
  /\ log (waiter s it p) = log s.
Proof.
  intros Herr Hs. unfold waiter, waiter_run, run_removed. rewrite Herr. simpl.
  split; [|split; [|done]].
  - intros r Hr [Ht Hrid].
    apply (Delete_removes runningItem_Less runningItem_Less_cotrans) in Hr;
      [|done].
    apply running_same_false in Hr. simpl in Hr. lia.
  - intros r Hr Hkey. apply Delete_keeps; [done |].
    apply running_same_false. simpl. lia.
Qed.

End DispatchFacts.

(** ** The goroutines together *)

Section InterleavingFacts.
Context {C : Cron} {W : Walk} {R : Runtime}.

Local Ltac break_match :=
  match goal with
  | |- context [match ?x with _ => _ end] => destruct x eqn:?
  end.

Lemma executor_calls_app (l l' : list event) :
  executor_calls (l ++ l') = (executor_calls l + executor_calls l')%nat.
Proof.
  induction l as [|e l IH]; simpl; [done |].
  destruct e; simpl; by rewrite IH.
Qed.


(** What [Schedule] does for a task that is not a key of [nextTime]. *)
Lemma do_call_Schedule_absent now (s : TreeScheduler) i e off since :
  nextTime s !! i = None ->
  do_call now s (CallSchedule i e off since) = Returns s
  \/ (exists it,
        scheduled_made s = true
        /\ do_call now s (CallSchedule i e off since)
           = Returns (set_scheduled
                        (BTree.ReplaceOrInsert item_Less it (scheduled s)) s))
  \/ (exists msg,
        scheduled_made s = false
        /\ do_call now s (CallSchedule i e off since) = Panics msg s).
Proof.
  intros Hl. simpl. unfold Schedule.
  destruct (ParseUTC e) as [crSch|err]; [|by left].
  destruct (Next crSch since) as [nt [err|]]; [by left |].
  rewrite Hl. unfold insert_scheduled, BTree.Insert.
  destruct (scheduled_made s); simpl.
  - right. left. by eexists.
  - right. right. by eexists.
Qed.

Lemma do_call_Release_absent now (s : TreeScheduler) tid :
  nextTime s !! tid = None -> do_call now s (CallRelease tid) = Returns s.
Proof. intros Hl. simpl. by rewrite Release_absent. Qed.

Lemma do_action_one_shot now (s s' : TreeScheduler) a :
  one_shot s -> do_action now s a = Returns s' -> one_shot s'.
Proof.
  unfold one_shot. intros (Hnt & Htick & Hcalls).
  destruct a as [[i e off since|tid]| | |it p].
  - assert (nextTime s !! i = None) as Hl by by rewrite Hnt.
    unfold do_action.
    destruct (do_call_Schedule_absent now s i e off since Hl)
      as [H|[(x & _ & H)|(m & _ & H)]]; rewrite H; [| |done];
      by intros [= <-].
  - unfold do_action. rewrite do_call_Release_absent by by rewrite Hnt.
    by intros [= <-].
  - simpl. intros [= <-]. destruct (active (timer s)) eqn:Hact; simpl.
    + split; [done |]. split; [done |].
      destruct Hcalls as [H0|(_ & Hoff & _)]; [by left | congruence].
    + rewrite Hact. tauto.
  - simpl. unfold loop_iteration.
    destruct (tick (timer s)) eqn:Ht; simpl; [|done].
    destruct Hcalls as [H0|(_ & _ & Hno)]; [|congruence].
    specialize (Htick eq_refl).
    unfold on_tick, call_onErr, insert_scheduled, insert_running, BTree.Insert.
    simpl.
    destruct (scheduled s) as [|m rest]; simpl.
    { intros [= <-]. simpl. split; [done |]. split; [done | by left]. }
    repeat (break_match; simpl; try done);
      intros [= <-]; simpl; simplify_eq/=;
      (split; [done |]); (split; [done |]); right;
      rewrite <- ?app_assoc, executor_calls_app, H0; done.
  - simpl. unfold waiter_run, call_onErr.
    destruct (prom_Error p); [destruct (onErr s) |]; simpl; try done;
      intros [= <-]; simpl; (split; [done |]); (split; [done |]); try done.
    rewrite executor_calls_app. simpl. by rewrite Nat.add_0_r.
Qed.

Lemma do_action_idle now (s : TreeScheduler) a :
  idle s -> idle (state_of (do_action now s a)).
Proof.
  unfold idle. intros (Hsm & Hrm & Hsch & Hrun & Hnt & Hcalls).
  destruct a as [[i e off since|tid]| | |it p].
  - assert (nextTime s !! i = None) as Hl by by rewrite Hnt.
    unfold do_action.
    destruct (do_call_Schedule_absent now s i e off since Hl)
      as [H|[(x & Hmade & H)|(m & _ & H)]]; rewrite H; simpl;
      [done | congruence | done].
  - unfold do_action. rewrite do_call_Release_absent by by rewrite Hnt. done.
  - simpl. by destruct (active (timer s)).
  - simpl. unfold loop_iteration.
    destruct (tick (timer s)); simpl; [|done].
    unfold on_tick. simpl. rewrite Hsch. simpl. done.
  - simpl. unfold waiter_run, call_onErr. rewrite Hrun.
    destruct (prom_Error p); [destruct (onErr s) |]; simpl;
      repeat split; try done.
    rewrite executor_calls_app. simpl. by rewrite Nat.add_0_r.
Qed.

Lemma do_actions_idle acts : forall s : TreeScheduler,
  idle s -> idle (state_of (do_actions s acts)).
Proof.
  induction acts as [|[now a] acts IH]; simpl; intros s Hs; [done |].
  pose proof (do_action_idle now s a Hs) as H1.
  destruct (do_action now s a) as [s1|m s1|c s1]; simpl in *; [by apply IH | done..].
Qed.

Lemma newly_built_idle ex (s : TreeScheduler) : newly_built ex s -> idle s.
Proof.
  unfold newly_built, idle.
  intros (Hsch & Hrun & Hnt & _ & _ & _ & _ & Hlog & _ & _ & Hsm & Hrm).
  rewrite Hlog. done.
Qed.



(** X18: a scheduler whose [nextTime] is empty and whose timer has no
    tick pending, as [NewScheduler] returns it, calls its executor at most
    once, whatever the callers, the timer, the dispatch loop and the
    waiters do and in whatever order: the iteration that dispatches an
    entry leaves the timer unarmed, and [Schedule] never re-arms it since
    [nextTime] stays empty. *)
Theorem at_most_one_dispatch acts : forall s s' : TreeScheduler,
  nextTime s = ∅ ->
  tick (timer s) = false ->
  executor_calls (log s) = 0%nat ->
  do_actions s acts = Returns s' ->
  (executor_calls (log s') <= 1)%nat /\ nextTime s' = ∅.
Proof.
  assert (forall acts (s s' : TreeScheduler),
            one_shot s -> do_actions s acts = Returns s' -> one_shot s') as Hinv.
  { clear acts. induction acts as [|[now a] acts IH]; simpl; intros s s' Hs.
    - by intros [= <-].
    - destruct (do_action now s a) as [s1| |] eqn:Hact; simpl; [|done..].
      apply IH. by eapply do_action_one_shot. }
  intros s s' Hnt Htick Hlog Hrun.
  destruct (Hinv acts s s') as (Hnt' & _ & Hcalls); [|done |].
  { split; [done |]. split; [congruence | by left]. }
  split; [|done]. destruct Hcalls as [->|(-> & _)]; lia.
Qed.

(** X6: on a scheduler as [NewScheduler] builds it, whatever the
    callers, the timer, the dispatch loop and the waiters do, in whatever
    order and however the run ends, nothing is ever scheduled or
    registered and the executor is never called: the two trees stay the
    empty zero values they were, and [nextTime] stays empty. *)
Theorem nothing_is_ever_dispatched acts ex (s : TreeScheduler) :
  newly_built ex s ->
  idle (state_of (do_actions s acts)).
Proof. intros Hs. apply do_actions_idle. by eapply newly_built_idle. Qed.
End InterleavingFacts.

(** ** The scheduler at work

    The scheduler run on concrete inputs, over [MinuteCron.cron] and
    [Machine]. *)

Section Scenarios.
Import Scenario.
Local Existing Instance Machine.runtime.
Local Existing Instance Machine.walk.

Let every_minute : string := "* * * * *".
Let nil_tree : string :=
  "nil pointer dereference: ReplaceOrInsert on a zero-value BTree".

(** *** What NewScheduler returns *)

Example NewScheduler_fresh ex :
  NewScheduler 0 (Some ex) [] = Returns (Some (fresh ex None), None).
Proof. reflexivity. Qed.

Example NewScheduler_WithTime ex clock :
  NewScheduler 0 (Some ex) [WithTime clock]
  = Returns (Some (fresh ex (Some stdTime)), None).
Proof. reflexivity. Qed.

Example NewScheduler_nil_executor :
  NewScheduler (C := MinuteCron.cron) 0 None []
  = Returns (None, Some "Executor must be a nnon-nil function").
Proof. reflexivity. Qed.

(** *** Registering a task *)

(** C1: on the scheduler [NewScheduler] returns, [Schedule(1,
    "* * * * *", 0, 0)] followed by [Release(1)] does not run to its end:
    [Schedule] panics in [ReplaceOrInsert], on the scheduled tree that was
    never made, and the scheduler is left as it was. *)
Theorem Schedule_then_Release_panics :
  do_calls 0 (fresh exec_fail None)
    [CallSchedule 1 every_minute 0 0; CallRelease 1]
  = Panics nil_tree (fresh exec_fail None).
Proof. reflexivity. Qed.

(** C4: on the scheduler [NewScheduler] returns, armed for the far-future
    sentinel and with nothing scheduled, [Schedule(1, "* * * * *", 0, 0)],
    whose entry would be due at second 60, panics in [ReplaceOrInsert]:
    no entry is registered, the timer is not touched and [When] goes on
    reporting the sentinel. *)
Theorem Schedule_panics_before_rearming :
  Schedule 0 (fresh exec_fail None) 1 every_minute 0 0
  = Panics nil_tree (fresh exec_fail None)
  /\ time_Unix 60 0 < When (fresh exec_fail None)
  /\ scheduled (fresh exec_fail None) = []
  /\ timer (fresh exec_fail None)
     = {| active := true; deadline := 3600000000000000000; tick := false |}.
Proof. repeat split; reflexivity. Qed.

(** C8: tasks 7 and 3 are registered for the same minute on the scheduler
    [NewScheduler] returns, built with [WithTime]; the timer ticks and the
    loop takes its turn. The first [Schedule] panics in [ReplaceOrInsert];
    and if the callers carry on regardless, the loop finds the tree empty:
    neither task is handed to the executor. *)
Theorem tied_tasks_are_not_dispatched :
  do_actions (fresh (exec_run None) (Some stdTime))
    [(0, ActCall (CallSchedule 7 every_minute 0 0));
     (0, ActCall (CallSchedule 3 every_minute 0 0));
     (60000000000, ActFire); (60000000000, ActLoop)]
  = Panics nil_tree (fresh (exec_run None) (Some stdTime))
  /\ exists s,
       do_actions (fresh (exec_run None) (Some stdTime))
         [(60000000000, ActFire); (60000000000, ActLoop)] = Returns s
       /\ log s = [] /\ scheduled s = [].
Proof. split; [reflexivity |]. eexists. repeat split; reflexivity. Qed.

(** *** Witnesses *)

Lemma Schedule_invalid_cron_witness :
  Schedule 0 (fresh exec_fail None) 1 "not a cron" 0 0
  = Returns (fresh exec_fail None, Some "cron: invalid expression").
Proof.
  apply (Schedule_invalid_cron (C := MinuteCron.cron)).
  reflexivity.
Defined.


(** A schedule with no next instant before the horizon is turned down. *)
Lemma Schedule_error_iff_witness :
  Schedule 0 (fresh exec_fail None) 1 every_minute 0 (time_Unix last_minute 0)
  = Returns (fresh exec_fail None,
             Some "cron: no viable time before the horizon").
Proof.
  apply (proj2 (Schedule_error_iff (C := MinuteCron.cron) 0
                  (fresh exec_fail None) (fresh exec_fail None) 1 every_minute 0
                  (time_Unix last_minute 0)
                  "cron: no viable time before the horizon")).
  split; [reflexivity |]. right.
  exists MinuteCron.EveryMinute, MinuteCron.zeroTime.
  split; reflexivity.
Defined.

Lemma Schedule_never_registers_witness :
  (exists err,
     Schedule 0 (fresh exec_fail None) 1 every_minute 0 0
     = Returns (fresh exec_fail None, Some err))
  \/ Schedule 0 (fresh exec_fail None) 1 every_minute 0 0
     = Panics "nil pointer dereference: ReplaceOrInsert on a zero-value BTree"
         (fresh exec_fail None).
Proof.
  apply (Schedule_never_registers (C := MinuteCron.cron) 0
           (fresh exec_fail None) 1 every_minute 0 0).
  - reflexivity.
  - reflexivity.
Defined.

Lemma NewScheduler_needs_executor_witness :
  @None (TreeScheduler (C := MinuteCron.cron)) = None
  /\ Some "Executor must be a nnon-nil function" <> @None Err.
Proof.
  apply (NewScheduler_needs_executor (C := MinuteCron.cron) 0 []).
  reflexivity.
Defined.

Lemma NewScheduler_result_witness :
  exists s,
    Some (fresh exec_fail (Some stdTime)) = Some s /\ @None Err = None
    /\ newly_built exec_fail s
    /\ when s = 0 + maxWaitTime
    /\ timer s = {| active := true; deadline := 0 + maxWaitTime; tick := false |}.
Proof.
  apply (NewScheduler_result (C := MinuteCron.cron) 0 exec_fail
           [WithTime stdTime; WithMaxRunsOutsanding 65536;
            WithOnErrorFn (Some (fun _ _ _ _ => true))]).
  - repeat constructor.
  - reflexivity.
Defined.

Lemma loop_iteration_empty_witness :
  loop_iteration 7 (set_timer (timer_fire (timer (fresh exec_fail None)))
                      (fresh exec_fail None))
  = Returns (set_timer {| active := true; deadline := 7 + maxWaitTime;
                          tick := false |}
               (set_timer (timer_fire (timer (fresh exec_fail None)))
                  (fresh exec_fail None))).
Proof.
  apply (loop_iteration_empty (C := MinuteCron.cron)).
  - reflexivity.
  - reflexivity.
Defined.

Lemma waiter_removes_run_witness :
  run_removed (waiter (after_dispatch None) (entry 120 5) (handle None 5)) 5 105
  /\ (forall r, r ∈ running (after_dispatch None) ->
        taskID r <> 5 \/ runID r <> 105 ->
        r ∈ running (waiter (after_dispatch None) (entry 120 5) (handle None 5)))
  /\ log (waiter (after_dispatch None) (entry 120 5) (handle None 5))
     = log (after_dispatch None).
Proof.
  apply (waiter_removes_run (C := MinuteCron.cron) (after_dispatch None)
           (entry 120 5) (handle None 5)).
  - reflexivity.
  - simpl. repeat constructor.
Defined.


(** A rejected expression, a tick on the empty tree, a release. *)
Lemma at_most_one_dispatch_witness :
  (executor_calls
     (log (set_timer {| active := true; deadline := (7 + maxWaitTime)%Z;
                        tick := false |} (fresh exec_fail None))) <= 1)%nat
  /\ nextTime (set_timer {| active := true; deadline := 7 + maxWaitTime;
                            tick := false |} (fresh exec_fail None)) = ∅.
Proof.
  apply (at_most_one_dispatch (C := MinuteCron.cron)
           [(0, ActCall (CallSchedule 1 "not a cron" 0 0)); (5, ActFire);
            (7, ActLoop); (8, ActCall (CallRelease 1))]
           (fresh exec_fail None)).
  - reflexivity.
  - reflexivity.
  - reflexivity.
  - reflexivity.
Defined.

(** Task 5 is offered, the timer ticks, the loop takes its turn. *)
Lemma nothing_is_ever_dispatched_witness :
  idle (state_of
          (do_actions (fresh (exec_run None) (Some stdTime))
             [(0, ActFire); (7, ActLoop);
              (8, ActCall (CallSchedule 5 every_minute 0 0));
              (9, ActFire); (9, ActLoop)])).
Proof.
  apply (nothing_is_ever_dispatched (C := MinuteCron.cron)
           [(0, ActFire); (7, ActLoop);
            (8, ActCall (CallSchedule 5 every_minute 0 0));
            (9, ActFire); (9, ActLoop)]
           (exec_run None) (fresh (exec_run None) (Some stdTime))).
  unfold newly_built. simpl.
  repeat split; try reflexivity; [lia | right; reflexivity].
Defined.
End Scenarios.
